(** * The rustdoc implementors loader [trait.impl/core/fmt/trait.Debug.js]

    The artifact is one immediately-invoked function:

      (function() {
        var implementors = { ...literal... };
        if (window.register_implementors) {
          window.register_implementors(implementors);
        } else {
          window.pending_implementors = implementors;
        }
      })()

    The development embeds the fragment of JavaScript the function uses:
    values and their truthiness, a heap of arrays and plain objects with
    reference identity, the data properties of the global object [window],
    and calls into functions supplied by the surrounding page.

    - [window] is bound, and its properties are plain data properties:
      reading one has no effect and writing one succeeds.
    - A function of the page is known by an identifier; what a call of it
      does is a parameter of the loader. A call may return, throw, or never
      come back.
    - The loader's trace lists what the loader itself does to the page: the
      calls it makes and the properties of [window] it writes. What a callee
      does is in the state the callee returns, not in the trace. *)

From stdpp Require Import gmap strings list fin_maps.
From Stdlib Require Import ZArith.

(** ** Values, objects, states *)

Definition loc := positive.
Definition fn_id := nat.

(** JavaScript values. [VNum n] is the number [n], and for [n] other than
    zero it stands for every number that is neither a zero nor NaN:
    ToBoolean tells no two of them apart and none is callable. The two
    zeros and NaN are values of their own, as are the BigInts, the symbols,
    and [document.all], the one object that ToBoolean sends to false. A
    function is a value of its own kind, named by an identifier of its
    code. *)
Inductive value :=
  | VUndefined
  | VNull
  | VBool (b : bool)
  | VNum (n : Z)
  | VNegZero
  | VNaN
  | VBigInt (n : Z)
  | VStr (s : string)
  | VSymbol (id : nat)
  | VObj (l : loc)
  | VDocumentAll
  | VFun (f : fn_id).

#[global] Instance value_eq_dec : EqDecision value.
Proof. solve_decision. Defined.

(** Heap cells: an array, or a plain object used as a map. *)
Inductive object :=
  | OArr (elems : list value)
  | ORec (props : gmap string value).

#[global] Instance object_eq_dec : EqDecision object.
Proof. solve_decision. Defined.

(** A state is the heap and the data properties of [window]. *)
Record state := State {
  heap : gmap loc object;
  window : gmap string value
}.

(** What a run can throw: the engine's TypeError for calling a value that
    is not callable, or whatever the callee threw. *)
Inductive exn :=
  | TypeError_not_a_function (callee : value)
  | Thrown (e : value).

(** How a call, or the whole loader, ends. *)
Inductive outcome :=
  | Returned (v : value) (s : state)
  | Threw (e : exn) (s : state)
  | Diverged.

(** The loader's own actions on what is globally reachable. *)
Inductive event :=
  | EvCall (f : fn_id) (args : list value)
  | EvSet (prop : string) (v : value).

#[global] Instance event_eq_dec : EqDecision event.
Proof. solve_decision. Defined.

Record run := Run {
  trace : list event;
  result : outcome
}.

(** ** Primitive operations *)

(** ToBoolean. *)
Definition to_boolean (v : value) : bool :=
  match v with
  | VUndefined | VNull | VNegZero | VNaN | VDocumentAll => false
  | VBool b => b
  | VNum n => negb (n =? 0)%Z
  | VBigInt n => negb (n =? 0)%Z
  | VStr s => negb (String.eqb s EmptyString)
  | VSymbol _ | VObj _ | VFun _ => true
  end.

(** [window.p]: a property that is not there reads as undefined. *)
Definition get_global (p : string) (s : state) : value :=
  default VUndefined (window s !! p).

(** [window.p = v]. *)
Definition set_global (p : string) (v : value) (s : state) : state :=
  State (heap s) (<[p := v]> (window s)).

(** A new heap cell, at a location the heap does not use. *)
Definition alloc (o : object) (s : state) : loc * state :=
  let l := fresh (dom (heap s)) in
  (l, State (<[l := o]> (heap s)) (window s)).

(** ** The literal *)

(** One entry is an array of strings; a crate maps to an array of entries. *)
Definition ImplementorEntry := list string.
Definition ImplementorMap := list (string * list ImplementorEntry).

(** The quote character, which the source writes as backslash-quote. *)
Definition dq : string := String (Ascii.ascii_of_nat 34) EmptyString.

(** [<a class="c" href="h" title="t">x</a>] *)
Definition anchor (c h t x : string) : string :=
  "<a class=" +:+ dq +:+ c +:+ dq +:+ " href=" +:+ dq +:+ h +:+ dq +:+
  " title=" +:+ dq +:+ t +:+ dq +:+ ">" +:+ x +:+ "</a>".

Definition trait_Debug : string :=
  anchor "trait" "https://doc.rust-lang.org/1.76.0/core/fmt/trait.Debug.html"
         "trait core::fmt::Debug" "Debug".

(** [impl <a ...>Debug</a> for <a class="c" href="h" title="t">x</a>] *)
Definition impl_Debug_for (c h t x : string) : string :=
  "impl " +:+ trait_Debug +:+ " for " +:+ anchor c h t x.

Definition implementors : ImplementorMap :=
  [ ("mistralrs_core",
     [ [impl_Debug_for "struct" "mistralrs_core/struct.SamplingParams.html"
          "struct mistralrs_core::SamplingParams" "SamplingParams"];
       [impl_Debug_for "enum" "mistralrs_core/enum.StopTokens.html"
          "enum mistralrs_core::StopTokens" "StopTokens"];
       [impl_Debug_for "struct" "mistralrs_core/struct.ChatCompletionResponse.html"
          "struct mistralrs_core::ChatCompletionResponse" "ChatCompletionResponse"];
       [impl_Debug_for "struct" "mistralrs_core/struct.Request.html"
          "struct mistralrs_core::Request" "Request"];
       [impl_Debug_for "struct" "mistralrs_core/struct.ChatCompletionUsage.html"
          "struct mistralrs_core::ChatCompletionUsage" "ChatCompletionUsage"] ]);
    ("mistralrs_lora",
     [ [impl_Debug_for "struct" "mistralrs_lora/struct.QLoraLinear.html"
          "struct mistralrs_lora::QLoraLinear" "QLoraLinear"];
       [impl_Debug_for "struct" "mistralrs_lora/struct.LoraConfig.html"
          "struct mistralrs_lora::LoraConfig" "LoraConfig"];
       [impl_Debug_for "struct" "mistralrs_lora/struct.LoraLinearConfig.html"
          "struct mistralrs_lora::LoraLinearConfig" "LoraLinearConfig"];
       [impl_Debug_for "struct" "mistralrs_lora/struct.Ordering.html"
          "struct mistralrs_lora::Ordering" "Ordering"] ]);
    ("mistralrs_server",
     [ [impl_Debug_for "enum" "mistralrs_server/openai/enum.StopTokens.html"
          "enum mistralrs_server::openai::StopTokens" "StopTokens"];
       [impl_Debug_for "struct" "mistralrs_server/openai/struct.Message.html"
          "struct mistralrs_server::openai::Message" "Message"];
       [impl_Debug_for "enum" "mistralrs_server/enum.ModelSelected.html"
          "enum mistralrs_server::ModelSelected" "ModelSelected"];
       [impl_Debug_for "struct" "mistralrs_server/openai/struct.ChatCompletionRequest.html"
          "struct mistralrs_server::openai::ChatCompletionRequest" "ChatCompletionRequest"] ]) ].


(** A literal all of whose keys are ordinary property names: none is
    [__proto__]. Such a literal defines a property for each of its keys,
    and a literal that names [__proto__] twice is not a program at all. *)
Definition ordinary_keys (m : ImplementorMap) : Prop :=
  "__proto__" ∉ m.*1.

(** ** Evaluating the literal *)

(** [["s1", ...]]: an array of strings. *)
Definition alloc_entry (e : ImplementorEntry) (s : state) : value * state :=
  let '(l, s') := alloc (OArr (VStr <$> e)) s in (VObj l, s').

(** The elements of an array literal are evaluated left to right. *)
Fixpoint alloc_entry_list (es : list ImplementorEntry) (s : state)
  : list value * state :=
  match es with
  | [] => ([], s)
  | e :: es' =>
      let '(v, s1) := alloc_entry e s in
      let '(vs, s2) := alloc_entry_list es' s1 in
      (v :: vs, s2)
  end.

(** [[[...], [...], ...]]: an array of entries. *)
Definition alloc_entries (es : list ImplementorEntry) (s : state) : value * state :=
  let '(vs, s1) := alloc_entry_list es s in
  let '(l, s2) := alloc (OArr vs) s1 in (VObj l, s2).

(** The properties of an object literal are evaluated left to right, each
    defined on the object as it is reached: a repeated key keeps the last
    value. One key is treated apart by the language: [__proto__: v]
    evaluates [v] like any other value, but defines no property; it sets
    the prototype of the object, which this model, where no property is
    inherited, does not record. The artifact's literal has no such key. *)
Fixpoint alloc_props (ps : ImplementorMap) (acc : gmap string value) (s : state)
  : gmap string value * state :=
  match ps with
  | [] => (acc, s)
  | (k, es) :: ps' =>
      let '(v, s1) := alloc_entries es s in
      alloc_props ps' (if decide (k = "__proto__") then acc else <[k := v]> acc) s1
  end.

(** [{ "crate": [...], ... }] *)
Definition alloc_map (m : ImplementorMap) (s : state) : loc * state :=
  let '(props, s1) := alloc_props m ∅ s in
  alloc (ORec props) s1.

(** ** Reading a map back from the heap *)

Definition read_string (v : value) : option string :=
  match v with VStr s => Some s | _ => None end.

Definition read_entry (h : gmap loc object) (v : value) : option ImplementorEntry :=
  match v with
  | VObj l =>
      match h !! l with
      | Some (OArr vs) => mapM read_string vs
      | _ => None
      end
  | _ => None
  end.

Definition read_entries (h : gmap loc object) (v : value)
  : option (list ImplementorEntry) :=
  match v with
  | VObj l =>
      match h !! l with
      | Some (OArr vs) => mapM (read_entry h) vs
      | _ => None
      end
  | _ => None
  end.

(** The object at [v] as a finite map from crate name to entries, when every
    property of it holds an array of arrays of strings. *)
Definition read_map (h : gmap loc object) (v : value)
  : option (gmap string (list ImplementorEntry)) :=
  match v with
  | VObj l =>
      match h !! l with
      | Some (ORec ps) =>
          if decide (map_Forall (λ _ x, is_Some (read_entries h x)) ps)
          then Some (omap (read_entries h) ps)
          else None
      | _ => None
      end
  | _ => None
  end.

(** The finite map a literal denotes: a repeated key keeps the last value. *)
Definition map_of (m : ImplementorMap) : gmap string (list ImplementorEntry) :=
  foldl (λ acc p, <[p.1 := p.2]> acc) ∅ m.

(** ** The loader *)

Definition register_implementors : string := "register_implementors".
Definition pending_implementors : string := "pending_implementors".

(** The value of a call statement is dropped. *)
Definition discard (o : outcome) : outcome :=
  match o with
  | Returned _ s => Returned VUndefined s
  | _ => o
  end.

Section Loader.

(** The code behind each function of the page: what a call of it with
    [window] as receiver does to the state. *)
Variable call : fn_id → list value → state → outcome.

(** The body of the function for a literal [m]. The property
    [register_implementors] is read twice, by the test and by the call;
    the call throws a TypeError when what it reads is not callable. *)
Definition loader_with (m : ImplementorMap) (s : state) : run :=
  let '(l, s1) := alloc_map m s in
  let implementors := VObj l in
  if to_boolean (get_global register_implementors s1) then
    match get_global register_implementors s1 with
    | VFun f =>
        Run [EvCall f [implementors]] (discard (call f [implementors] s1))
    | v => Run [] (Threw (TypeError_not_a_function v) s1)
    end
  else
    Run [EvSet pending_implementors implementors]
        (Returned VUndefined (set_global pending_implementors implementors s1)).

Definition loader : state → run := loader_with implementors.

End Loader.

(** Counting the loader's actions. *)
Definition is_call (e : event) : bool :=
  match e with EvCall _ _ => true | _ => false end.
Definition is_set (e : event) : bool :=
  match e with EvSet _ _ => true | _ => false end.
Definition calls (t : list event) : nat := length (filter is_call t).
Definition writes (t : list event) : nat := length (filter is_set t).

(** The values a trace hands to the page: the arguments of its calls and
    the values it stores. *)
Definition handed_off (t : list event) : list value :=
  t ≫= λ e, match e with EvCall _ args => args | EvSet _ v => [v] end.

(** ** Reading an entry's text *)

(** What an anchor element says: its class, where it points, its title and
    its text. *)
Record link := Link {
  link_class : string;
  link_href : string;
  link_title : string;
  link_text : string
}.

(** The characters that end a quoted value and a text: the quote, code
    34, and the opening angle bracket, code 60. *)
Definition quote_char : Ascii.ascii := Ascii.ascii_of_nat 34.
Definition open_char : Ascii.ascii := Ascii.ascii_of_nat 60.

(** [s] without its prefix [p], when it starts with [p]. *)
Fixpoint strip_prefix (p s : string) : option string :=
  match p with
  | EmptyString => Some s
  | String a p' =>
      match s with
      | String b s' => if Ascii.eqb a b then strip_prefix p' s' else None
      | EmptyString => None
      end
  end.

(** [s] cut at its first [c]: what is before it, and what is after it. *)
Fixpoint take_until (c : Ascii.ascii) (s : string) : option (string * string) :=
  match s with
  | EmptyString => None
  | String a s' =>
      if Ascii.eqb a c then Some (EmptyString, s')
      else '(x, r) ← take_until c s'; Some (String a x, r)
  end.

(** An attribute [name], an equals sign and a quoted value at the head of
    [s]: the value, and the rest. *)
Definition parse_attr (name s : string) : option (string * string) :=
  s ← strip_prefix name s;
  s ← strip_prefix "=" s;
  match s with
  | String c s' => if Ascii.eqb c quote_char then take_until quote_char s' else None
  | EmptyString => None
  end.

(** An anchor element with the attributes class, href and title, in this
    order, at the head of [s]: what it says, and the rest. *)
Definition parse_anchor (s : string) : option (link * string) :=
  s ← strip_prefix "<a " s;
  '(c, s) ← parse_attr "class" s;
  s ← strip_prefix " " s;
  '(h, s) ← parse_attr "href" s;
  s ← strip_prefix " " s;
  '(t, s) ← parse_attr "title" s;
  s ← strip_prefix ">" s;
  '(x, s) ← take_until open_char s;
  s ← strip_prefix "/a>" s;
  Some (Link c h t x, s).

(** The whole of [s] as the word impl, an anchor, the word for, an anchor:
    the trait implemented, and the type it is implemented for. *)
Definition parse_impl (s : string) : option (link * link) :=
  s ← strip_prefix "impl " s;
  '(tr, s) ← parse_anchor s;
  s ← strip_prefix " for " s;
  '(ty, s) ← parse_anchor s;
  match s with
  | EmptyString => Some (tr, ty)
  | String _ _ => None
  end.


(** ** What the lemmas are stated with *)

(** [s'] has every cell of [s], and the same [window]. *)
Definition extends (s s' : state) : Prop :=
  heap s ⊆ heap s' ∧ window s' = window s.

(** The plain objects of a heap, arrays left out. *)
Definition as_record (o : object) : option (gmap string value) :=
  match o with ORec ps => Some ps | OArr _ => None end.

Definition records (h : gmap loc object) : gmap loc (gmap string value) :=
  omap as_record h.

(** The properties evaluated so far read back as the entries written. *)
Definition reads_as (h : gmap loc object)
    (ps : gmap string value) (d : gmap string (list ImplementorEntry)) : Prop :=
  map_Forall2 (λ _ v es, read_entries h v = Some es) ps d.

(** ** Pages to run the loader on *)

(** A page that has loaded nothing yet. *)
Definition s_empty : state := State ∅ ∅.

(** A page whose runtime has already installed its registrar, function 0. *)
Definition s_registrar : state :=
  State ∅ {[ "register_implementors" := VFun 0 ]}.

(** A page on which [register_implementors] is bound to null. *)
Definition s_null : state :=
  State ∅ {[ "register_implementors" := VNull ]}.

(** A page on which [register_implementors] is bound to [true]. *)
Definition s_true : state :=
  State ∅ {[ "register_implementors" := VBool true ]}.

(** A registrar that keeps what it is given under [window.registered]. *)
Definition keeping_registrar : fn_id → list value → state → outcome :=
  λ _ args s, Returned VUndefined (set_global "registered" (hd VUndefined args) s).

(** A registrar that throws the string [boom]. *)
Definition throwing_registrar : fn_id → list value → state → outcome :=
  λ _ _ s, Threw (Thrown (VStr "boom")) s.

(** The first literal of scenario C, and the second. *)
Definition scenario_M1 : ImplementorMap := [("libA", [["entry1"]])].
Definition scenario_M2 : ImplementorMap := [("libA", [["entry2"]]); ("libB", [["entry3"]])].

(** ** What the further properties are stated with *)

(** The state [s] with [w] for its [window]. *)
Definition with_window (w : gmap string value) (s : state) : state :=
  State (heap s) w.

(** The cells a literal takes: one for the object, one for the array of each
    crate, one for each entry. *)
Definition cells (m : ImplementorMap) : nat :=
  S (sum_list_with (λ p, S (length p.2)) m).

(** What the slot can hold for ToBoolean to send it to false: nothing, or
    undefined, null, false, one of the zeros (0, -0, 0n), NaN, the empty
    string, or [document.all]. *)
Definition falsy_slots : list (option value) :=
  [None; Some VUndefined; Some VNull; Some (VBool false); Some (VNum 0);
   Some VNegZero; Some VNaN; Some (VBigInt 0); Some (VStr EmptyString);
   Some VDocumentAll].

(** A runtime whose function 0 is the keeping registrar, and whose other
    functions throw. *)
Definition mixed_runtime : fn_id → list value → state → outcome :=
  λ f args s,
    match f with
    | O => keeping_registrar f args s
    | S _ => throwing_registrar f args s
    end.

(** * What evaluating the literal does to the state *)

Lemma extends_refl s : extends s s.
Proof. by split. Qed.

Lemma extends_trans s1 s2 s3 : extends s1 s2 → extends s2 s3 → extends s1 s3.
Proof.
  intros [H12 W12] [H23 W23]. split; [by etrans | congruence].
Qed.

Lemma alloc_spec o s l s' :
  alloc o s = (l, s') →
  heap s !! l = None ∧ heap s' = <[l := o]> (heap s) ∧ window s' = window s.
Proof.
  unfold alloc. intros [= <- <-]. simpl. split; [|done].
  apply not_elem_of_dom, is_fresh.
Qed.

Lemma alloc_extends o s l s' : alloc o s = (l, s') → extends s s'.
Proof.
  intros (Hl & Hh & Hw)%alloc_spec. split; [|done].
  rewrite Hh. by apply insert_subseteq.
Qed.

Lemma alloc_lookup o s l s' : alloc o s = (l, s') → heap s' !! l = Some o.
Proof. intros (_ & -> & _)%alloc_spec. apply lookup_insert_eq. Qed.

(** Reading back is stable under heap growth. *)
Lemma read_entry_mono h h' v e :
  h ⊆ h' → read_entry h v = Some e → read_entry h' v = Some e.
Proof.
  intros Hsub. destruct v; try done. simpl.
  destruct (h !! l) as [[vs|ps]|] eqn:Hl; try done.
  by rewrite (lookup_weaken _ _ _ _ Hl Hsub).
Qed.

Lemma read_entries_mono h h' v es :
  h ⊆ h' → read_entries h v = Some es → read_entries h' v = Some es.
Proof.
  intros Hsub. destruct v; try done. simpl.
  destruct (h !! l) as [[vs|ps]|] eqn:Hl; try done.
  rewrite (lookup_weaken _ _ _ _ Hl Hsub).
  rewrite !mapM_Some. intros Hall.
  eapply Forall2_impl; [exact Hall|]. eauto using read_entry_mono.
Qed.

Lemma read_map_mono h h' v m :
  h ⊆ h' → read_map h v = Some m → read_map h' v = Some m.
Proof.
  intros Hsub. destruct v; try done. simpl.
  destruct (h !! l) as [[vs|ps]|] eqn:Hl; try done.
  rewrite (lookup_weaken _ _ _ _ Hl Hsub).
  case_decide as Hall; [|done]. intros [= <-].
  assert (∀ k x, ps !! k = Some x → read_entries h' x = read_entries h x) as Heq.
  { intros k x Hk. destruct (Hall k x Hk) as [es Hes].
    rewrite Hes. eauto using read_entries_mono. }
  rewrite decide_True.
  - f_equal. apply map_eq. intros k. rewrite !lookup_omap.
    destruct (ps !! k) eqn:Hk; simpl; eauto.
  - intros k x Hk. rewrite (Heq k x Hk). eauto.
Qed.

Lemma read_map_allocated h l m :
  read_map h (VObj l) = Some m → is_Some (h !! l).
Proof. simpl. destruct (h !! l); [eauto | done]. Qed.

(** An entry, and an array of entries, read back as written. *)
Lemma alloc_entry_spec e s v s' :
  alloc_entry e s = (v, s') →
  extends s s' ∧ read_entry (heap s') v = Some e.
Proof.
  unfold alloc_entry. destruct (alloc _ s) as [l s1] eqn:Ha.
  cbv beta iota. intros [= <- <-].
  split; [by eapply alloc_extends|]. simpl.
  rewrite (alloc_lookup _ _ _ _ Ha). by apply mapM_fmap_Some.
Qed.

Lemma alloc_entry_list_spec es : ∀ s vs s',
  alloc_entry_list es s = (vs, s') →
  extends s s' ∧ Forall2 (λ v e, read_entry (heap s') v = Some e) vs es.
Proof.
  induction es as [|e es IH]; intros s vs s'; cbn [alloc_entry_list].
  - intros [= <- <-]. split; [apply extends_refl | constructor].
  - destruct (alloc_entry e s) as [v s1] eqn:He.
    destruct (alloc_entry_list es s1) as [vs' s2] eqn:Hes.
    cbv beta iota. intros [= <- <-].
    apply alloc_entry_spec in He as [Hx1 Hr1].
    apply IH in Hes as [Hx2 Hr2].
    split; [by eapply extends_trans|].
    constructor; [|done]. eapply read_entry_mono; [apply Hx2 | done].
Qed.

Lemma alloc_entries_spec es s v s' :
  alloc_entries es s = (v, s') →
  extends s s' ∧ read_entries (heap s') v = Some es.
Proof.
  unfold alloc_entries.
  destruct (alloc_entry_list es s) as [vs s1] eqn:Hes. cbv beta iota.
  destruct (alloc (OArr vs) s1) as [l s2] eqn:Ha.
  cbv beta iota. intros [= <- <-].
  apply alloc_entry_list_spec in Hes as [Hx1 Hr1].
  pose proof (alloc_extends _ _ _ _ Ha) as Hx2.
  split; [by eapply extends_trans|]. simpl.
  rewrite (alloc_lookup _ _ _ _ Ha). apply mapM_Some.
  eapply Forall2_impl; [done|]. intros v e Hv. simpl in Hv.
  eapply read_entry_mono; [apply Hx2 | done].
Qed.

Lemma records_alloc_array vs s l s' :
  alloc (OArr vs) s = (l, s') → records (heap s') = records (heap s).
Proof.
  intros (Hl & -> & _)%alloc_spec. unfold records.
  rewrite omap_insert_None by done. apply delete_id.
  by rewrite lookup_omap, Hl.
Qed.

Lemma records_alloc_record ps s l s' :
  alloc (ORec ps) s = (l, s') →
  records (heap s) !! l = None ∧ records (heap s') = <[l := ps]> (records (heap s)).
Proof.
  intros (Hl & -> & _)%alloc_spec. unfold records. split.
  - by rewrite lookup_omap, Hl.
  - by apply omap_insert_Some.
Qed.

Lemma records_alloc_entry e s v s' :
  alloc_entry e s = (v, s') → records (heap s') = records (heap s).
Proof.
  unfold alloc_entry. destruct (alloc _ s) as [l s1] eqn:Ha.
  cbv beta iota. intros [= <- <-]. by eapply records_alloc_array.
Qed.

Lemma records_alloc_entry_list es : ∀ s vs s',
  alloc_entry_list es s = (vs, s') → records (heap s') = records (heap s).
Proof.
  induction es as [|e es IH]; intros s vs s'; cbn [alloc_entry_list].
  - by intros [= <- <-].
  - destruct (alloc_entry e s) as [v s1] eqn:He.
    destruct (alloc_entry_list es s1) as [vs' s2] eqn:Hes.
    cbv beta iota. intros [= <- <-].
    rewrite (IH _ _ _ Hes). by eapply records_alloc_entry.
Qed.

Lemma records_alloc_entries es s v s' :
  alloc_entries es s = (v, s') → records (heap s') = records (heap s).
Proof.
  unfold alloc_entries.
  destruct (alloc_entry_list es s) as [vs s1] eqn:Hes. cbv beta iota.
  destruct (alloc (OArr vs) s1) as [l s2] eqn:Ha.
  cbv beta iota. intros [= <- <-].
  rewrite (records_alloc_array _ _ _ _ Ha). by eapply records_alloc_entry_list.
Qed.

Lemma reads_as_mono h h' ps d : h ⊆ h' → reads_as h ps d → reads_as h' ps d.
Proof.
  intros Hsub Hps. eapply map_Forall2_impl; [exact Hps|].
  intros k v es. by apply read_entries_mono.
Qed.

Lemma ordinary_keys_cons k es m :
  ordinary_keys ((k, es) :: m) ↔ k ≠ "__proto__" ∧ ordinary_keys m.
Proof.
  unfold ordinary_keys. rewrite fmap_cons, not_elem_of_cons. simpl.
  split; (intros [Hk Hm]; split; [congruence | done]).
Qed.

Lemma alloc_props_spec m : ∀ acc d s acc' s',
  alloc_props m acc s = (acc', s') →
  reads_as (heap s) acc d →
  extends s s'
  ∧ records (heap s') = records (heap s)
  ∧ (ordinary_keys m →
       reads_as (heap s') acc' (foldl (λ a p, <[p.1 := p.2]> a) d m)).
Proof.
  induction m as [|[k es] m IH]; intros acc d s acc' s'; cbn [alloc_props foldl].
  - intros [= <- <-] Hacc. split; [apply extends_refl | done].
  - destruct (alloc_entries es s) as [v s1] eqn:Hes. intros Hps Hacc.
    pose proof (records_alloc_entries _ _ _ _ Hes) as Hrec.
    apply alloc_entries_spec in Hes as [Hx1 Hr1].
    destruct (decide (k = "__proto__")) as [Hk|Hk].
    + apply (IH _ d) in Hps as (Hx2 & Hrec2 & _).
      * split; [by eapply extends_trans|]. split; [congruence|].
        intros [? _]%ordinary_keys_cons. done.
      * eapply reads_as_mono; [apply Hx1 | done].
    + apply (IH _ (<[k := es]> d)) in Hps as (Hx2 & Hrec2 & Hr2).
      * split; [by eapply extends_trans|]. split; [congruence|].
        intros [_ Hm]%ordinary_keys_cons. by apply Hr2.
      * apply map_Forall2_insert_2; [done|].
        eapply reads_as_mono; [apply Hx1 | done].
Qed.

Lemma reads_as_read_map h l ps d :
  h !! l = Some (ORec ps) → reads_as h ps d → read_map h (VObj l) = Some d.
Proof.
  intros Hl Hps. simpl. rewrite Hl. rewrite decide_True.
  - f_equal. apply map_eq. intros k. rewrite lookup_omap.
    specialize (Hps k). by destruct Hps.
  - intros k v Hk. specialize (Hps k). rewrite Hk in Hps.
    inversion Hps. eauto.
Qed.

(** Evaluating the literal yields one new plain object, at a location the
    heap did not use, which reads back as the map the literal denotes; the
    cells that were there, and [window], are as before. *)
Lemma alloc_map_spec m s l s' :
  alloc_map m s = (l, s') →
  heap s !! l = None
  ∧ extends s s'
  ∧ (ordinary_keys m → read_map (heap s') (VObj l) = Some (map_of m))
  ∧ ∃ ps, records (heap s') = <[l := ps]> (records (heap s)).
Proof.
  unfold alloc_map.
  destruct (alloc_props m ∅ s) as [ps s1] eqn:Hps. cbv beta iota. intros Ha.
  apply (alloc_props_spec _ _ ∅) in Hps as (Hx1 & Hrec1 & Hr1);
    [|apply map_Forall2_empty].
  pose proof (alloc_extends _ _ _ _ Ha) as Hx2.
  pose proof (alloc_lookup _ _ _ _ Ha) as Hl.
  pose proof (records_alloc_record _ _ _ _ Ha) as [_ Hrec2].
  apply alloc_spec in Ha as (Hfresh & _ & _).
  split; [|split; [by eapply extends_trans|split]].
  - destruct Hx1 as [Hsub _]. destruct (heap s !! l) eqn:Hsl; [|done].
    by rewrite (lookup_weaken _ _ _ _ Hsl Hsub) in Hfresh.
  - intros Hok. eapply reads_as_read_map; [done|].
    eapply reads_as_mono; [apply Hx2 | by apply Hr1].
  - exists ps. by rewrite Hrec2, Hrec1.
Qed.

(** * The three ways a load can go *)

Section Paths.

Variable call : fn_id → list value → state → outcome.

(** The literal is evaluated before [window] is looked at, and evaluating
    it leaves [window] alone: the test sees the slot as it was. *)
Lemma loader_with_unfold m s :
  let l := (alloc_map m s).1 in
  let s1 := (alloc_map m s).2 in
  let v := get_global register_implementors s in
  loader_with call m s =
    if to_boolean v then
      match v with
      | VFun f => Run [EvCall f [VObj l]] (discard (call f [VObj l] s1))
      | _ => Run [] (Threw (TypeError_not_a_function v) s1)
      end
    else
      Run [EvSet pending_implementors (VObj l)]
          (Returned VUndefined (set_global pending_implementors (VObj l) s1)).
Proof.
  unfold loader_with. destruct (alloc_map m s) as [l s1] eqn:Hm. simpl.
  apply alloc_map_spec in Hm as (_ & [_ Hw] & _).
  unfold get_global. rewrite Hw. by destruct (default VUndefined _).
Qed.

Lemma loader_with_callable m s f :
  window s !! register_implementors = Some (VFun f) →
  loader_with call m s =
    Run [EvCall f [VObj (alloc_map m s).1]]
        (discard (call f [VObj (alloc_map m s).1] (alloc_map m s).2)).
Proof.
  intros Hf. rewrite loader_with_unfold. unfold get_global. by rewrite Hf.
Qed.

Lemma loader_with_falsy m s :
  to_boolean (get_global register_implementors s) = false →
  loader_with call m s =
    Run [EvSet pending_implementors (VObj (alloc_map m s).1)]
        (Returned VUndefined
           (set_global pending_implementors (VObj (alloc_map m s).1)
              (alloc_map m s).2)).
Proof. intros Hf. rewrite loader_with_unfold. by rewrite Hf. Qed.

Lemma loader_with_not_callable m s :
  to_boolean (get_global register_implementors s) = true →
  (∀ f, get_global register_implementors s ≠ VFun f) →
  loader_with call m s =
    Run [] (Threw (TypeError_not_a_function (get_global register_implementors s))
              (alloc_map m s).2).
Proof.
  rewrite loader_with_unfold.
  destruct (get_global register_implementors s) as [| |b|n| | |n|x|y|l| |f];
    simpl; intros Ht Hnf; rewrite ?Ht; try done.
  exfalso. by eapply Hnf.
Qed.

(** The state the branch runs in: the old cells and [window], and the map. *)
Lemma constructed_spec m s :
  let l := (alloc_map m s).1 in
  let s1 := (alloc_map m s).2 in
  heap s !! l = None
  ∧ heap s ⊆ heap s1
  ∧ window s1 = window s
  ∧ (ordinary_keys m → read_map (heap s1) (VObj l) = Some (map_of m))
  ∧ ∃ ps, records (heap s1) = <[l := ps]> (records (heap s)).
Proof.
  destruct (alloc_map m s) as [l s1] eqn:Hm. simpl.
  apply alloc_map_spec in Hm as (? & [? ?] & ? & ?). done.
Qed.

(** The immediate path: one call, with the map, and no write. *)
Lemma immediate_path m s f :
  window s !! register_implementors = Some (VFun f) →
  let l := (alloc_map m s).1 in
  let s1 := (alloc_map m s).2 in
  trace (loader_with call m s) = [EvCall f [VObj l]]
  ∧ calls (trace (loader_with call m s)) = 1
  ∧ writes (trace (loader_with call m s)) = 0
  ∧ heap s !! l = None
  ∧ (ordinary_keys m → read_map (heap s1) (VObj l) = Some (map_of m))
  ∧ result (loader_with call m s) = discard (call f [VObj l] s1)
  ∧ window s1 = window s
  ∧ window s1 !! pending_implementors = window s !! pending_implementors.
Proof.
  intros Hf l s1. rewrite (loader_with_callable m s f Hf). fold l s1.
  destruct (constructed_spec m s) as (Hl & _ & Hw & Hr & _).
  fold l s1 in Hl, Hw, Hr. cbn [trace result]. by rewrite Hw.
Qed.

(** The deferred path: one write of the pending slot, and no call. *)
Lemma deferred_path m s :
  to_boolean (get_global register_implementors s) = false →
  let l := (alloc_map m s).1 in
  let s1 := (alloc_map m s).2 in
  let s' := set_global pending_implementors (VObj l) s1 in
  trace (loader_with call m s) = [EvSet pending_implementors (VObj l)]
  ∧ calls (trace (loader_with call m s)) = 0
  ∧ writes (trace (loader_with call m s)) = 1
  ∧ heap s !! l = None
  ∧ result (loader_with call m s) = Returned VUndefined s'
  ∧ window s' = <[pending_implementors := VObj l]> (window s)
  ∧ heap s' = heap s1
  ∧ (ordinary_keys m → read_map (heap s') (VObj l) = Some (map_of m)).
Proof.
  intros Hf l s1 s'. rewrite (loader_with_falsy m s Hf). fold l s1 s'.
  destruct (constructed_spec m s) as (Hl & _ & Hw & Hr & _).
  fold l s1 in Hl, Hw, Hr. cbn [trace result]. subst s'.
  unfold set_global. cbn [heap window]. by rewrite Hw.
Qed.

(** A function the loader calls is the one bound to the name. *)
Lemma called_is_registrar m s g args :
  EvCall g args ∈ trace (loader_with call m s) →
  window s !! register_implementors = Some (VFun g).
Proof.
  rewrite loader_with_unfold. unfold get_global.
  destruct (window s !! register_implementors) as [[| |[]|n| | |n|x|y|l0| |g0]|];
    simpl; try destruct (negb _); simpl;
    intros Hin; try (by apply not_elem_of_nil in Hin);
    apply list_elem_of_singleton in Hin; congruence.
Qed.

(** A slot that is truthy and holds no function: the call throws before
    anything is called or written. *)
Lemma not_callable_path m s :
  to_boolean (get_global register_implementors s) = true →
  (∀ f, get_global register_implementors s ≠ VFun f) →
  trace (loader_with call m s) = []
  ∧ result (loader_with call m s)
    = Threw (TypeError_not_a_function (get_global register_implementors s))
        (alloc_map m s).2.
Proof.
  intros Ht Hnf. by rewrite (loader_with_not_callable m s Ht Hnf).
Qed.

Lemma get_global_fun p s f :
  get_global p s = VFun f → window s !! p = Some (VFun f).
Proof.
  unfold get_global. destruct (window s !! p); simpl; [congruence | done].
Qed.

Lemma fun_get_global p s f :
  window s !! p = Some (VFun f) → get_global p s = VFun f.
Proof. unfold get_global. by intros ->. Qed.

(** Every slot value falls under one of the three paths. *)
Lemma slot_cases s :
  let v := get_global register_implementors s in
  to_boolean v = false
  ∨ (∃ f, window s !! register_implementors = Some (VFun f))
  ∨ (to_boolean v = true ∧ ∀ f, v ≠ VFun f).
Proof.
  unfold get_global.
  destruct (window s !! register_implementors) as [v|]; [|by left].
  simpl. destruct (to_boolean v) eqn:Hb; [|by left]. right.
  destruct v; try (right; split; done). left. eauto.
Qed.

(** What the loader hands off is the map object, and only once. *)
Lemma handed_off_spec m s :
  let t := trace (loader_with call m s) in
  let v := get_global register_implementors s in
  (to_boolean v = false ∨ (∃ f, v = VFun f) → handed_off t = [VObj (alloc_map m s).1])
  ∧ (to_boolean v = true ∧ (∀ f, v ≠ VFun f) → handed_off t = [])
  ∧ calls t + writes t = length (handed_off t)
  ∧ length (handed_off t) ≤ 1.
Proof.
  intros t v.
  assert (t = [EvSet pending_implementors (VObj (alloc_map m s).1)]
            ∧ to_boolean v = false
          ∨ (∃ f, t = [EvCall f [VObj (alloc_map m s).1]] ∧ v = VFun f)
          ∨ t = [] ∧ to_boolean v = true ∧ ∀ f, v ≠ VFun f) as Hcases.
  { destruct (slot_cases s) as [Hf|[[f Hf]|[Ht Hnf]]].
    - left. split; [|done]. by destruct (deferred_path m s Hf) as (? & _).
    - right. left. exists f. split.
      + by destruct (immediate_path m s f Hf) as (? & _).
      + subst v. unfold get_global. by rewrite Hf.
    - right. right. split; [|done].
      by destruct (not_callable_path m s Ht Hnf) as (? & _). }
  destruct Hcases as [[-> Hf]|[(f & -> & Hf)|(-> & Ht & Hnf)]].
  - split; [done|]. split; [|split; [done | simpl; lia]].
    intros [? _]. congruence.
  - split; [done|]. split; [|split; [done | simpl; lia]].
    intros [_ Hnf]. by destruct (Hnf f).
  - split; [|split; [done | split; [done | simpl; lia]]].
    intros [?|[f ?]]; [congruence | by destruct (Hnf f)].
Qed.

Lemma handed_off_elem m s x :
  x ∈ handed_off (trace (loader_with call m s)) → x = VObj (alloc_map m s).1.
Proof.
  destruct (handed_off_spec m s) as (Hone & Hnone & _).
  destruct (slot_cases s) as [Hf|[[f Hf]|Hnc]].
  - rewrite Hone by auto. by intros ?%list_elem_of_singleton.
  - rewrite Hone.
    + by intros ?%list_elem_of_singleton.
    + right. exists f. unfold get_global. by rewrite Hf.
  - rewrite Hnone by done. by intros ?%not_elem_of_nil.
Qed.

End Paths.

(** * What a parsed entry says about its text *)

Lemma string_append_assoc (a b c : string) : (a +:+ b) +:+ c = a +:+ (b +:+ c).
Proof.
  induction a as [|x a IH]; [done|].
  change (String x ((a +:+ b) +:+ c) = String x (a +:+ (b +:+ c))).
  by f_equal.
Qed.

Lemma strip_prefix_Some p : ∀ s r, strip_prefix p s = Some r → s = p +:+ r.
Proof.
  induction p as [|a p IH]; intros s r; simpl.
  - by intros [= ->].
  - destruct s as [|b s]; [done|].
    destruct (Ascii.eqb_spec a b) as [->|]; [|done].
    intros Hs. by rewrite (IH _ _ Hs).
Qed.

Lemma take_until_Some c s : ∀ x r,
  take_until c s = Some (x, r) → s = x +:+ String c r.
Proof.
  induction s as [|a s IH]; intros x r; simpl; [done|].
  destruct (Ascii.eqb_spec a c) as [->|].
  - by intros [= <- <-].
  - destruct (take_until c s) as [[x' r']|]; simpl; [|done].
    intros [= <- <-]. simpl. by rewrite (IH _ _ eq_refl).
Qed.

Lemma parse_attr_Some name s v r :
  parse_attr name s = Some (v, r) →
  s = name +:+ "=" +:+ String quote_char (v +:+ String quote_char r).
Proof.
  unfold parse_attr.
  intros (s1 & H1 & (s2 & H2 & Hv)%bind_Some)%bind_Some.
  destruct s2 as [|c s2]; [done|].
  destruct (Ascii.eqb_spec c quote_char) as [->|]; [|done].
  apply take_until_Some in Hv.
  apply strip_prefix_Some in H1 as ->. apply strip_prefix_Some in H2 as ->.
  by rewrite Hv.
Qed.

(** The parser takes nothing but the text an anchor is written with. *)
Lemma parse_anchor_Some s a r :
  parse_anchor s = Some (a, r) →
  s = anchor (link_class a) (link_href a) (link_title a) (link_text a) +:+ r.
Proof.
  unfold parse_anchor.
  intros (s1 & H1 & ([c s2] & H2 & (s3 & H3 & ([h s4] & H4 & (s5 & H5 &
    ([ti s6] & H6 & (s7 & H7 & ([x s8] & H8 & (s9 & H9 & Hr)
    %bind_Some)%bind_Some)%bind_Some)%bind_Some)%bind_Some)%bind_Some)
    %bind_Some)%bind_Some)%bind_Some.
  injection Hr as <- <-.
  apply strip_prefix_Some in H1 as ->. apply parse_attr_Some in H2 as ->.
  apply strip_prefix_Some in H3 as ->. apply parse_attr_Some in H4 as ->.
  apply strip_prefix_Some in H5 as ->. apply parse_attr_Some in H6 as ->.
  apply strip_prefix_Some in H7 as ->. apply take_until_Some in H8 as ->.
  apply strip_prefix_Some in H9 as ->.
  unfold anchor, dq. cbn [link_class link_href link_title link_text].
  rewrite !string_append_assoc. reflexivity.
Qed.

Lemma parse_impl_Some s tr ty :
  parse_impl s = Some (tr, ty) →
  s = "impl "
      +:+ anchor (link_class tr) (link_href tr) (link_title tr) (link_text tr)
      +:+ " for "
      +:+ anchor (link_class ty) (link_href ty) (link_title ty) (link_text ty).
Proof.
  unfold parse_impl.
  intros (s1 & H1 & ([a1 s2] & H2 & (s3 & H3 & ([a2 s4] & H4 & Hr)
    %bind_Some)%bind_Some)%bind_Some)%bind_Some.
  destruct s4 as [|? ?]; [|done]. injection Hr as <- <-.
  apply strip_prefix_Some in H1 as ->. apply parse_anchor_Some in H2 as ->.
  apply strip_prefix_Some in H3 as ->. apply parse_anchor_Some in H4 as ->.
  do 3 f_equal.
  generalize (anchor (link_class a2) (link_href a2) (link_title a2) (link_text a2)).
  intros y. induction y as [|x y IH]; [done|].
  change (String x (y +:+ "") = String x y). by f_equal.
Qed.

(** The artifact's literal names three crates, none of them [__proto__]. *)
Lemma implementors_ordinary : ordinary_keys implementors.
Proof.
  unfold ordinary_keys, implementors. cbn [fmap list_fmap fst].
  rewrite !not_elem_of_cons. repeat split; try done. apply not_elem_of_nil.
Qed.

(** * Properties of the loader *)

Section Claims.

Variable call : fn_id → list value → state → outcome.

(** C1: when [window.register_implementors] holds a function before the
    load, the load's only action is one call of that function, with the
    one argument the map object built by this load (new on the heap, and
    reading back as the literal); the load ends as that call ends; and the
    loader writes nothing: the callee is entered with [window], the
    pending slot with it, as it was before the load. *)
Theorem C1_registrar_present_called_once (s : state) (f : fn_id) :
  window s !! "register_implementors" = Some (VFun f) →
  let l := (alloc_map implementors s).1 in
  let s1 := (alloc_map implementors s).2 in
  trace (loader call s) = [EvCall f [VObj l]]
  ∧ calls (trace (loader call s)) = 1
  ∧ writes (trace (loader call s)) = 0
  ∧ heap s !! l = None
  ∧ read_map (heap s1) (VObj l) = Some (map_of implementors)
  ∧ result (loader call s) = discard (call f [VObj l] s1)
  ∧ window s1 = window s
  ∧ window s1 !! "pending_implementors" = window s !! "pending_implementors".
Proof.
  generalize implementors_ordinary. unfold loader. generalize implementors.
  intros m Hok Hf.
  destruct (immediate_path call m s f Hf)
    as (Ht & Hc & Hw & Hl & Hr & Hres & Hwin & Hp).
  split; [exact Ht|]. split; [exact Hc|]. split; [exact Hw|].
  split; [exact Hl|]. split; [exact (Hr Hok)|]. split; [exact Hres|].
  split; [exact Hwin | exact Hp].
Qed.

(** C2: when [window.register_implementors] is absent, the load's only
    action is one write of [window.pending_implementors], no function is
    called, and afterwards the slot holds the map object built by this
    load, which reads back as the literal. On any page, a function the
    loader calls is the one bound to the name [register_implementors]. *)
Theorem C2_registrar_absent_pending_written (s : state) :
  window s !! "register_implementors" = None →
  let l := (alloc_map implementors s).1 in
  (trace (loader call s) = [EvSet "pending_implementors" (VObj l)]
   ∧ calls (trace (loader call s)) = 0
   ∧ heap s !! l = None
   ∧ ∃ s', result (loader call s) = Returned VUndefined s'
         ∧ window s' !! "pending_implementors" = Some (VObj l)
         ∧ read_map (heap s') (VObj l) = Some (map_of implementors))
  ∧ (∀ s0 g args, EvCall g args ∈ trace (loader call s0) →
       window s0 !! "register_implementors" = Some (VFun g)).
Proof.
  generalize implementors_ordinary. unfold loader. generalize implementors.
  intros m Hok Habs. split.
  - assert (to_boolean (get_global register_implementors s) = false) as Hf.
    { unfold get_global, register_implementors. by rewrite Habs. }
    destruct (deferred_path call m s Hf) as (Ht & Hc & _ & Hl & Hres & Hw & _ & Hr).
    split; [exact Ht|]. split; [exact Hc|]. split; [exact Hl|].
    eexists. split; [exact Hres|]. split; [|exact (Hr Hok)].
    rewrite Hw. apply lookup_insert_eq.
  - intros s0 g args. apply called_is_registrar.
Qed.

(** C4: two loads in a row, of literals [M1] then [M2] with ordinary
    keys, on a page whose registrar slot is empty or falsy: both take the
    deferred path, and afterwards the pending slot holds the second load's
    object, which is another object than the first load's and reads back
    as [M2] alone; the first load's object is still on the heap and still
    reads back as [M1]. *)
Theorem C4_second_load_overwrites (M1 M2 : ImplementorMap) (s : state) :
  ordinary_keys M1 →
  ordinary_keys M2 →
  to_boolean (get_global "register_implementors" s) = false →
  ∃ l1 s1 l2 s2,
    result (loader_with call M1 s) = Returned VUndefined s1
    ∧ window s1 !! "pending_implementors" = Some (VObj l1)
    ∧ read_map (heap s1) (VObj l1) = Some (map_of M1)
    ∧ result (loader_with call M2 s1) = Returned VUndefined s2
    ∧ window s2 !! "pending_implementors" = Some (VObj l2)
    ∧ read_map (heap s2) (VObj l2) = Some (map_of M2)
    ∧ l2 ≠ l1
    ∧ read_map (heap s2) (VObj l1) = Some (map_of M1)
    ∧ calls (trace (loader_with call M1 s)) = 0
    ∧ calls (trace (loader_with call M2 s1)) = 0.
Proof.
  intros Hk1 Hk2 Hf.
  destruct (deferred_path call M1 s Hf) as (_ & Hc1 & _ & _ & Hres1 & Hw1 & Hh1 & Hr1).
  specialize (Hr1 Hk1).
  set (l1 := (alloc_map M1 s).1) in *.
  set (s1 := set_global pending_implementors (VObj l1) (alloc_map M1 s).2) in *.
  assert (to_boolean (get_global register_implementors s1) = false) as Hf1.
  { unfold get_global in *. rewrite Hw1. by rewrite lookup_insert_ne. }
  destruct (deferred_path call M2 s1 Hf1)
    as (_ & Hc2 & _ & Hl2 & Hres2 & Hw2 & Hh2 & Hr2).
  specialize (Hr2 Hk2).
  destruct (constructed_spec M2 s1) as (_ & Hsub & _).
  rewrite <- Hh2 in Hsub.
  set (l2 := (alloc_map M2 s1).1) in *.
  set (s2 := set_global pending_implementors (VObj l2) (alloc_map M2 s1).2) in *.
  exists l1, s1, l2, s2.
  split; [exact Hres1|]. split; [rewrite Hw1; apply lookup_insert_eq|].
  split; [exact Hr1|]. split; [exact Hres2|].
  split; [rewrite Hw2; apply lookup_insert_eq|]. split; [exact Hr2|].
  split; [|split; [by eapply read_map_mono | by split]].
  intros Heq. apply read_map_allocated in Hr1 as [o Ho].
  rewrite <- Heq, Hl2 in Ho. done.
Qed.

(** C9: the test is on truthiness: when [register_implementors] is bound
    to a value that ToBoolean sends to false (null, undefined, 0 and false
    are such values), the load takes the deferred path: it calls nothing
    and writes the map object into [window.pending_implementors]: the load
    ends normally, in a state whose [pending_implementors] is the map
    object, every other property of [window] and every cell the literal
    made being as they were. *)
Theorem C9_bound_but_falsy_is_deferred (s : state) (v : value) :
  window s !! "register_implementors" = Some v →
  to_boolean v = false →
  let l := (alloc_map implementors s).1 in
  let s1 := (alloc_map implementors s).2 in
  (trace (loader call s) = [EvSet "pending_implementors" (VObj l)]
   ∧ calls (trace (loader call s)) = 0
   ∧ result (loader call s)
     = Returned VUndefined (set_global "pending_implementors" (VObj l) s1)
   ∧ read_map (heap s1) (VObj l) = Some (map_of implementors)
   ∧ ∃ s', result (loader call s) = Returned VUndefined s'
           ∧ window s' !! "pending_implementors" = Some (VObj l)
           ∧ heap s' = heap s1
           ∧ read_map (heap s') (VObj l) = Some (map_of implementors)
           ∧ ∀ p, p ≠ "pending_implementors" →
                  window s' !! p = window s !! p)
  ∧ to_boolean VNull = false ∧ to_boolean VUndefined = false
  ∧ to_boolean (VNum 0) = false ∧ to_boolean (VBool false) = false.
Proof.
  generalize implementors_ordinary. unfold loader. generalize implementors.
  intros m Hok Hv Hfalsy.
  split; [|done].
  assert (to_boolean (get_global register_implementors s) = false) as Hf.
  { unfold get_global, register_implementors. by rewrite Hv. }
  destruct (deferred_path call m s Hf) as (Ht & Hc & _ & _ & Hres & Hw & Hh & Hr).
  destruct (constructed_spec m s) as (_ & _ & _ & Hr1 & _).
  split; [exact Ht|]. split; [exact Hc|]. split; [exact Hres|].
  split; [exact (Hr1 Hok)|].
  eexists. split; [exact Hres|]. rewrite Hw.
  split; [apply lookup_insert_eq|]. split; [exact Hh|]. split; [exact (Hr Hok)|].
  intros p Hp. by apply lookup_insert_ne.
Qed.

(** C10: when [register_implementors] holds a function and the call of it
    throws, the load ends by throwing the same value in the state the
    callee left; the call is the load's only action: nothing is written,
    before the call or after it. *)
Theorem C10_registrar_throw_propagates
    (s : state) (f : fn_id) (e : exn) (s2 : state) :
  window s !! "register_implementors" = Some (VFun f) →
  call f [VObj (alloc_map implementors s).1] (alloc_map implementors s).2
    = Threw e s2 →
  result (loader call s) = Threw e s2
  ∧ trace (loader call s) = [EvCall f [VObj (alloc_map implementors s).1]]
  ∧ writes (trace (loader call s)) = 0
  ∧ window (alloc_map implementors s).2 = window s.
Proof.
  unfold loader. generalize implementors. intros m Hf Hthrow.
  destruct (immediate_path call m s f Hf) as (Ht & _ & Hw & _ & _ & Hres & Hwin & _).
  rewrite Hres, Hthrow. auto.
Qed.

(** C3, amended: on every run the loader acts on at most one of the
    two locations, never on both, and on exactly one when the slot is
    falsy or holds a function; when the slot holds a truthy value that is
    not a function it acts on neither and the load throws a TypeError.
    Evaluating the literal keeps every cell of the heap and all of
    [window]; the immediate path hands that state to the registrar and
    does nothing after it; the deferred path ends with the map object in
    [window.pending_implementors], and changes no other property of
    [window], and no cell. *)
Theorem C3_at_most_one_location (s : state) :
  let t := trace (loader call s) in
  let v := get_global "register_implementors" s in
  let l := (alloc_map implementors s).1 in
  let s1 := (alloc_map implementors s).2 in
  calls t + writes t ≤ 1
  ∧ (to_boolean v = false ∨ (∃ f, v = VFun f) → calls t + writes t = 1)
  ∧ (to_boolean v = true ∧ (∀ f, v ≠ VFun f) →
       calls t + writes t = 0
       ∧ result (loader call s) = Threw (TypeError_not_a_function v) s1)
  ∧ heap s ⊆ heap s1
  ∧ window s1 = window s
  ∧ (∀ f, v = VFun f →
       writes t = 0 ∧ result (loader call s) = discard (call f [VObj l] s1))
  ∧ (to_boolean v = false →
       calls t = 0
       ∧ ∃ s', result (loader call s) = Returned VUndefined s'
             ∧ heap s' = heap s1
             ∧ window s' !! "pending_implementors" = Some (VObj l)
             ∧ ∀ p, p ≠ "pending_implementors" →
                    window s' !! p = window s !! p).
Proof.
  unfold loader. generalize implementors. intros m.
  destruct (handed_off_spec call m s) as (Hone & Hnone & Hsum & Hle).
  destruct (constructed_spec m s) as (_ & Hsub & Hwin & _).
  split; [lia|]. split; [|split; [|split; [done|split; [done|split]]]].
  - intros Hv. rewrite Hsum, Hone; done.
  - intros Hv. split; [by rewrite Hsum, Hnone|].
    destruct Hv as [Ht Hnf]. by destruct (not_callable_path call m s Ht Hnf).
  - intros f Hf%get_global_fun.
    by destruct (immediate_path call m s f Hf) as (_ & _ & ? & _ & _ & ? & _).
  - intros Hf.
    destruct (deferred_path call m s Hf) as (_ & Hc & _ & _ & Hres & Hw & Hh & _).
    split; [done|]. eexists. split; [exact Hres|]. split; [exact Hh|].
    rewrite Hw. split; [apply lookup_insert_eq|].
    intros p Hp. by apply lookup_insert_ne.
Qed.

(** C5, amended: the loader raises no error of its own when the slot
    is absent or otherwise falsy, where the load always completes
    normally, or when it holds a function, where the load completes as the
    call does; an absent registrar is not a failure. A load that throws
    does so in one of two ways: the slot holds a truthy value that is not
    a function and the call of it raises a TypeError, or the registrar
    threw. *)
Theorem C5_errors_only_from_the_call (s : state) :
  let v := get_global "register_implementors" s in
  let l := (alloc_map implementors s).1 in
  let s1 := (alloc_map implementors s).2 in
  (window s !! "register_implementors" = None →
     ∃ s', result (loader call s) = Returned VUndefined s')
  ∧ (to_boolean v = false →
       ∃ s', result (loader call s) = Returned VUndefined s')
  ∧ (∀ f r s2, v = VFun f → call f [VObj l] s1 = Returned r s2 →
       result (loader call s) = Returned VUndefined s2)
  ∧ (∀ e s', result (loader call s) = Threw e s' →
       (to_boolean v = true ∧ (∀ f, v ≠ VFun f)
        ∧ e = TypeError_not_a_function v ∧ s' = s1)
       ∨ (∃ f, v = VFun f ∧ call f [VObj l] s1 = Threw e s')).
Proof.
  unfold loader. generalize implementors. intros m.
  assert (to_boolean (get_global register_implementors s) = false →
          ∃ s', result (loader_with call m s) = Returned VUndefined s') as Hdef.
  { intros Hf. destruct (deferred_path call m s Hf) as (_ & _ & _ & _ & Hres & _).
    eauto. }
  split; [|split; [exact Hdef|split]].
  - intros Habs. apply Hdef. unfold get_global, register_implementors.
    by rewrite Habs.
  - intros f r s2 Hf%get_global_fun Hret.
    destruct (immediate_path call m s f Hf) as (_ & _ & _ & _ & _ & Hres & _).
    by rewrite Hres, Hret.
  - intros e s' Hthrow.
    destruct (slot_cases s) as [Hf|[[f Hf]|[Ht Hnf]]].
    + destruct (Hdef Hf) as [s'' Hres]. congruence.
    + right. exists f. split; [by apply fun_get_global|].
      destruct (immediate_path call m s f Hf) as (_ & _ & _ & _ & _ & Hres & _).
      rewrite Hres in Hthrow.
      destruct (call f _ _); simpl in Hthrow; congruence.
    + left. destruct (not_callable_path call m s Ht Hnf) as (_ & Hres).
      rewrite Hres in Hthrow. injection Hthrow as <- <-. done.
Qed.

(** C6, amended: a load builds the map once: the one plain object new
    on the heap is the map object, which reads back as the literal. The
    loader does not touch the heap after that, on any path: the registrar
    is entered with, the deferred path ends with, and the TypeError is
    thrown with, the heap as the literal left it. The map object is handed
    off at most once, and exactly once when the slot is falsy or holds a
    function: as the argument of the call, or as the value the deferred
    path leaves in [window.pending_implementors]; when the slot holds a
    truthy value that is not a function it is handed to nobody. *)
Theorem C6_built_once_handed_off_at_most_once (s : state) :
  let t := trace (loader call s) in
  let v := get_global "register_implementors" s in
  let l := (alloc_map implementors s).1 in
  let s1 := (alloc_map implementors s).2 in
  (records (heap s) !! l = None
   ∧ ∃ ps, records (heap s1) = <[l := ps]> (records (heap s)))
  ∧ read_map (heap s1) (VObj l) = Some (map_of implementors)
  ∧ (∀ f, v = VFun f → result (loader call s) = discard (call f [VObj l] s1))
  ∧ (to_boolean v = false →
       ∃ s', result (loader call s) = Returned VUndefined s'
             ∧ heap s' = heap s1
             ∧ read_map (heap s') (VObj l) = Some (map_of implementors)
             ∧ window s' !! "pending_implementors" = Some (VObj l))
  ∧ length (handed_off t) ≤ 1
  ∧ (to_boolean v = false ∨ (∃ f, v = VFun f) → handed_off t = [VObj l])
  ∧ (to_boolean v = true ∧ (∀ f, v ≠ VFun f) →
       handed_off t = []
       ∧ result (loader call s) = Threw (TypeError_not_a_function v) s1)
  ∧ heap s ⊆ heap s1
  ∧ window s1 = window s.
Proof.
  generalize implementors_ordinary. unfold loader. generalize implementors.
  intros m Hok.
  destruct (handed_off_spec call m s) as (Hone & Hnone & _ & Hle).
  destruct (constructed_spec m s) as (Hl & Hsub & Hwin & Hr & Hrec).
  specialize (Hr Hok).
  split; [|split; [done|split; [|split; [|split; [done|split; [done|split]]]]]].
  - split; [|done]. unfold records. by rewrite lookup_omap, Hl.
  - intros f Hf%get_global_fun.
    by destruct (immediate_path call m s f Hf) as (_ & _ & _ & _ & _ & ? & _).
  - intros Hf.
    destruct (deferred_path call m s Hf) as (_ & _ & _ & _ & Hres & Hw & Hh & Hr').
    eexists. split; [exact Hres|]. split; [exact Hh|]. split; [exact (Hr' Hok)|].
    rewrite Hw. apply lookup_insert_eq.
  - intros Hnc. split; [by apply Hnone|].
    destruct Hnc as [Ht Hnf]. by destruct (not_callable_path call m s Ht Hnf).
  - done.
Qed.

End Claims.

(** C7: the loader has no argument, and what it hands off does not depend
    on the page: for any two runs, on any two pages with any two runtimes,
    a value handed to the registrar or stored in the pending slot reads
    back, on the heap it is handed off with, as the same map, the one the
    literal denotes. *)
Theorem C7_same_map_on_every_run
    (call1 call2 : fn_id → list value → state → outcome)
    (s1 s2 : state) (v1 v2 : value) :
  v1 ∈ handed_off (trace (loader call1 s1)) →
  v2 ∈ handed_off (trace (loader call2 s2)) →
  read_map (heap (alloc_map implementors s1).2) v1 = Some (map_of implementors)
  ∧ read_map (heap (alloc_map implementors s2).2) v2 = Some (map_of implementors)
  ∧ read_map (heap (alloc_map implementors s1).2) v1
    = read_map (heap (alloc_map implementors s2).2) v2.
Proof.
  generalize implementors_ordinary. unfold loader. generalize implementors.
  intros m Hok Hv1 Hv2.
  apply handed_off_elem in Hv1 as ->. apply handed_off_elem in Hv2 as ->.
  destruct (constructed_spec m s1) as (_ & _ & _ & Hr1 & _).
  destruct (constructed_spec m s2) as (_ & _ & _ & Hr2 & _).
  specialize (Hr1 Hok). specialize (Hr2 Hok).
  split; [done|]. split; [done|]. congruence.
Qed.



(** * The properties on concrete pages *)

Lemma C1_witness :
  window s_registrar !! "register_implementors" = Some (VFun 0)
  ∧ trace (loader keeping_registrar s_registrar)
    = [EvCall 0 [VObj (alloc_map implementors s_registrar).1]]
  ∧ calls (trace (loader keeping_registrar s_registrar)) = 1
  ∧ writes (trace (loader keeping_registrar s_registrar)) = 0.
Proof.
  split; [reflexivity|].
  destruct (C1_registrar_present_called_once keeping_registrar s_registrar 0 eq_refl)
    as (Ht & Hc & Hw & _).
  split; [exact Ht | split; [exact Hc | exact Hw]].
Defined.

Lemma C2_witness :
  window s_empty !! "register_implementors" = None
  ∧ trace (loader keeping_registrar s_empty)
    = [EvSet "pending_implementors" (VObj (alloc_map implementors s_empty).1)]
  ∧ calls (trace (loader keeping_registrar s_empty)) = 0.
Proof.
  split; [reflexivity|].
  destruct (C2_registrar_absent_pending_written keeping_registrar s_empty eq_refl)
    as [(Ht & Hc & _) _].
  split; [exact Ht | exact Hc].
Defined.

Lemma C4_witness :
  ordinary_keys scenario_M1
  ∧ ordinary_keys scenario_M2
  ∧ to_boolean (get_global "register_implementors" s_empty) = false
  ∧ ∃ s1 l2 s2,
      result (loader_with keeping_registrar scenario_M1 s_empty) = Returned VUndefined s1
      ∧ result (loader_with keeping_registrar scenario_M2 s1) = Returned VUndefined s2
      ∧ window s2 !! "pending_implementors" = Some (VObj l2)
      ∧ read_map (heap s2) (VObj l2) = Some (map_of scenario_M2).
Proof.
  assert (ordinary_keys scenario_M1) as Hk1.
  { unfold ordinary_keys, scenario_M1. cbn [fmap list_fmap fst].
    rewrite !not_elem_of_cons. repeat split; try done. apply not_elem_of_nil. }
  assert (ordinary_keys scenario_M2) as Hk2.
  { unfold ordinary_keys, scenario_M2. cbn [fmap list_fmap fst].
    rewrite !not_elem_of_cons. repeat split; try done. apply not_elem_of_nil. }
  split; [exact Hk1|]. split; [exact Hk2|]. split; [reflexivity|].
  destruct (C4_second_load_overwrites keeping_registrar scenario_M1 scenario_M2
              s_empty Hk1 Hk2 eq_refl)
    as (l1 & s1 & l2 & s2 & H1 & _ & _ & H2 & Hw & Hr & _).
  exists s1, l2, s2. split; [exact H1 | split; [exact H2 | split; [exact Hw | exact Hr]]].
Defined.

Lemma C7_witness :
  VObj 17%positive ∈ handed_off (trace (loader keeping_registrar s_registrar))
  ∧ VObj 17%positive ∈ handed_off (trace (loader throwing_registrar s_empty))
  ∧ read_map (heap (alloc_map implementors s_registrar).2) (VObj 17%positive)
    = read_map (heap (alloc_map implementors s_empty).2) (VObj 17%positive).
Proof.
  assert (VObj 17%positive ∈ handed_off (trace (loader keeping_registrar s_registrar))) as H1.
  { vm_compute. apply list_elem_of_here. }
  assert (VObj 17%positive ∈ handed_off (trace (loader throwing_registrar s_empty))) as H2.
  { vm_compute. apply list_elem_of_here. }
  split; [exact H1 | split; [exact H2|]].
  exact (proj2 (proj2 (C7_same_map_on_every_run _ _ _ _ _ _ H1 H2))).
Defined.

Lemma C9_witness :
  window s_null !! "register_implementors" = Some VNull
  ∧ to_boolean VNull = false
  ∧ trace (loader keeping_registrar s_null)
    = [EvSet "pending_implementors" (VObj (alloc_map implementors s_null).1)]
  ∧ calls (trace (loader keeping_registrar s_null)) = 0
  ∧ ∃ s', result (loader keeping_registrar s_null) = Returned VUndefined s'
          ∧ window s' !! "pending_implementors"
            = Some (VObj (alloc_map implementors s_null).1).
Proof.
  split; [reflexivity|]. split; [reflexivity|].
  destruct (C9_bound_but_falsy_is_deferred keeping_registrar s_null VNull
              eq_refl eq_refl) as [(Ht & Hc & _ & _ & s' & Hres & Hw & _) _].
  split; [exact Ht|]. split; [exact Hc|].
  exists s'. split; [exact Hres | exact Hw].
Defined.

Lemma C10_witness :
  window s_registrar !! "register_implementors" = Some (VFun 0)
  ∧ throwing_registrar 0 [VObj (alloc_map implementors s_registrar).1]
      (alloc_map implementors s_registrar).2
    = Threw (Thrown (VStr "boom")) (alloc_map implementors s_registrar).2
  ∧ result (loader throwing_registrar s_registrar)
    = Threw (Thrown (VStr "boom")) (alloc_map implementors s_registrar).2
  ∧ writes (trace (loader throwing_registrar s_registrar)) = 0.
Proof.
  split; [reflexivity|]. split; [reflexivity|].
  destruct (C10_registrar_throw_propagates throwing_registrar s_registrar 0
              (Thrown (VStr "boom")) (alloc_map implementors s_registrar).2
              eq_refl eq_refl) as (Hres & _ & Hw & _).
  split; [exact Hres | exact Hw].
Defined.

(** On a page where [register_implementors] is bound to [true], the load
    calls nothing and writes nothing: neither location is affected. *)
Lemma C3_counterexample :
  calls (trace (loader keeping_registrar s_true))
  + writes (trace (loader keeping_registrar s_true)) = 0
  ∧ window (alloc_map implementors s_true).2 !! "pending_implementors" = None.
Proof. by vm_compute. Qed.

(** On that page the load does not complete: it throws a TypeError. *)
Lemma C5_counterexample :
  result (loader keeping_registrar s_true)
  = Threw (TypeError_not_a_function (VBool true)) (alloc_map implementors s_true).2.
Proof. by vm_compute. Qed.

(** On that page the map is built and handed to nobody. *)
Lemma C6_counterexample :
  handed_off (trace (loader keeping_registrar s_true)) = []
  ∧ is_Some (read_map (heap (alloc_map implementors s_true).2)
               (VObj (alloc_map implementors s_true).1)).
Proof. split; [by vm_compute|]. vm_compute. eauto. Qed.

(** * Further properties of the literal and of the loader *)

(** Evaluating a literal passes [window] through: it reads none of it. *)
Lemma alloc_with_window o w s :
  alloc o (with_window w s) = ((alloc o s).1, with_window w (alloc o s).2).
Proof. reflexivity. Qed.

Lemma alloc_entry_with_window e w s :
  alloc_entry e (with_window w s)
  = ((alloc_entry e s).1, with_window w (alloc_entry e s).2).
Proof. reflexivity. Qed.

Lemma alloc_entry_list_with_window es : ∀ w s,
  alloc_entry_list es (with_window w s)
  = ((alloc_entry_list es s).1, with_window w (alloc_entry_list es s).2).
Proof.
  induction es as [|e es IH]; intros w s; cbn [alloc_entry_list]; [done|].
  rewrite alloc_entry_with_window.
  destruct (alloc_entry e s) as [v s1]. cbn [fst snd]. rewrite IH.
  by destruct (alloc_entry_list es s1) as [vs s2].
Qed.

Lemma alloc_entries_with_window es w s :
  alloc_entries es (with_window w s)
  = ((alloc_entries es s).1, with_window w (alloc_entries es s).2).
Proof.
  unfold alloc_entries. rewrite alloc_entry_list_with_window.
  destruct (alloc_entry_list es s) as [vs s1]. cbn [fst snd].
  rewrite alloc_with_window. by destruct (alloc (OArr vs) s1) as [l s2].
Qed.

Lemma alloc_props_with_window m : ∀ acc w s,
  alloc_props m acc (with_window w s)
  = ((alloc_props m acc s).1, with_window w (alloc_props m acc s).2).
Proof.
  induction m as [|[k es] m IH]; intros acc w s; cbn [alloc_props]; [done|].
  rewrite alloc_entries_with_window.
  destruct (alloc_entries es s) as [v s1]. cbn [fst snd]. apply IH.
Qed.

Lemma alloc_map_with_window m w s :
  alloc_map m (with_window w s)
  = ((alloc_map m s).1, with_window w (alloc_map m s).2).
Proof.
  unfold alloc_map. rewrite alloc_props_with_window.
  destruct (alloc_props m ∅ s) as [ps s1]. cbn [fst snd].
  apply alloc_with_window.
Qed.

(** Each array and object of a literal takes a cell of its own. *)
Lemma alloc_size o s : size (heap (alloc o s).2) = S (size (heap s)).
Proof.
  destruct (alloc o s) as [l s'] eqn:Ha.
  apply alloc_spec in Ha as (Hl & Hh & _). cbn [snd]. rewrite Hh.
  by apply map_size_insert_None.
Qed.

Lemma alloc_entry_size e s : size (heap (alloc_entry e s).2) = S (size (heap s)).
Proof.
  unfold alloc_entry. pose proof (alloc_size (OArr (VStr <$> e)) s) as Hs.
  by destruct (alloc _ s) as [l s'].
Qed.

Lemma alloc_entry_list_size es : ∀ s,
  size (heap (alloc_entry_list es s).2) = size (heap s) + length es.
Proof.
  induction es as [|e es IH]; intros s; cbn [alloc_entry_list length].
  - simpl. lia.
  - pose proof (alloc_entry_size e s) as He.
    destruct (alloc_entry e s) as [v s1]. cbn [snd] in He.
    specialize (IH s1). destruct (alloc_entry_list es s1) as [vs s2].
    cbn [snd] in *. lia.
Qed.

Lemma alloc_entries_size es s :
  size (heap (alloc_entries es s).2) = size (heap s) + S (length es).
Proof.
  unfold alloc_entries. pose proof (alloc_entry_list_size es s) as Hes.
  destruct (alloc_entry_list es s) as [vs s1]. cbn [snd] in Hes.
  pose proof (alloc_size (OArr vs) s1) as Ha.
  destruct (alloc (OArr vs) s1) as [l s2]. cbn [snd] in *. lia.
Qed.

Lemma alloc_props_size m : ∀ acc s,
  size (heap (alloc_props m acc s).2)
  = size (heap s) + sum_list_with (λ p, S (length p.2)) m.
Proof.
  induction m as [|[k es] m IH]; intros acc s; cbn [alloc_props sum_list_with].
  - simpl. lia.
  - pose proof (alloc_entries_size es s) as Hes.
    destruct (alloc_entries es s) as [v s1]. cbn [snd] in Hes.
    rewrite IH. cbn [snd]. lia.
Qed.

(** What a literal denotes, entry by entry. *)
Lemma map_of_snoc m k es : map_of (m ++ [(k, es)]) = <[k := es]> (map_of m).
Proof. unfold map_of. by rewrite foldl_snoc. Qed.

Lemma map_of_lookup m k es :
  NoDup m.*1 → map_of m !! k = Some es ↔ (k, es) ∈ m.
Proof.
  induction m as [|[k' es'] m IH] using rev_ind; intros Hnd.
  - unfold map_of. simpl. rewrite lookup_empty, elem_of_nil. naive_solver.
  - rewrite fmap_app in Hnd. apply NoDup_app in Hnd as (Hnd & Hk' & _).
    rewrite map_of_snoc, lookup_insert_Some, elem_of_app, list_elem_of_singleton.
    rewrite (IH Hnd). split.
    + intros [[-> ->]|[_ ?]]; auto.
    + intros [Hin|[= -> ->]]; [|auto]. right. split; [|done].
      intros ->. apply (Hk' k); [|simpl; apply list_elem_of_here].
      apply list_elem_of_fmap. by exists (k, es).
Qed.

(** The literals of scenario C have ordinary keys. *)
Lemma scenario_M1_ordinary : ordinary_keys scenario_M1.
Proof.
  unfold ordinary_keys, scenario_M1. cbn [fmap list_fmap fst].
  rewrite !not_elem_of_cons. repeat split; try done. apply not_elem_of_nil.
Qed.

Lemma scenario_M2_ordinary : ordinary_keys scenario_M2.
Proof.
  unfold ordinary_keys, scenario_M2. cbn [fmap list_fmap fst].
  rewrite !not_elem_of_cons. repeat split; try done. apply not_elem_of_nil.
Qed.

(** X1: whatever the literal, its keys being ordinary, and whatever the
    heap, the object the literal evaluates to reads back as the map the
    literal denotes, and goes on reading so on every heap that keeps the
    cells it was given. *)
Theorem X1_literal_reads_back (m : ImplementorMap) (s : state) :
  ordinary_keys m →
  read_map (heap (alloc_map m s).2) (VObj (alloc_map m s).1) = Some (map_of m)
  ∧ ∀ h, heap (alloc_map m s).2 ⊆ h →
         read_map h (VObj (alloc_map m s).1) = Some (map_of m).
Proof.
  intros Hok.
  destruct (alloc_map m s) as [l s1] eqn:Hm. cbn [fst snd].
  apply alloc_map_spec in Hm as (_ & _ & Hr & _). specialize (Hr Hok).
  split; [done|]. intros h Hsub. by eapply read_map_mono.
Qed.

(** X2: for a literal with ordinary keys that repeats no crate name, the
    object it evaluates to has, under a crate name, exactly the entries
    the literal lists under it: a pair is in the literal if and only if
    looking the name up in the object read back gives those entries. *)
Theorem X2_listed_entries_are_found
    (m : ImplementorMap) (s : state) (k : string) (es : list ImplementorEntry) :
  ordinary_keys m →
  NoDup m.*1 →
  (k, es) ∈ m ↔
  ∃ d, read_map (heap (alloc_map m s).2) (VObj (alloc_map m s).1) = Some d
       ∧ d !! k = Some es.
Proof.
  intros Hok Hnd.
  destruct (alloc_map m s) as [l s1] eqn:Hm. cbn [fst snd].
  apply alloc_map_spec in Hm as (_ & _ & Hr & _). specialize (Hr Hok).
  rewrite <- (map_of_lookup m k es Hnd). split.
  - intros Hk. by exists (map_of m).
  - intros (d & Hd & Hk). congruence.
Qed.

(** X3: evaluating a literal with ordinary keys takes a new cell for the
    object, for the array of each crate and for each entry, and does
    nothing else: the heap grows by exactly that many cells, the cells
    that were there are as they were, and [window] is untouched. The
    loader leaves the heap at that: the deferred path ends with exactly
    the heap the literal left, and so does a load that throws without
    calling. A load of this artifact takes 17 cells. *)
Theorem X3_literal_takes_its_cells_only
    (call : fn_id → list value → state → outcome) (m : ImplementorMap) (s : state) :
  ordinary_keys m →
  size (heap (alloc_map m s).2) = size (heap s) + cells m
  ∧ heap s ⊆ heap (alloc_map m s).2
  ∧ window (alloc_map m s).2 = window s
  ∧ cells implementors = 17
  ∧ (∀ s', result (loader_with call m s) = Returned VUndefined s' →
           writes (trace (loader_with call m s)) = 1 →
           heap s' = heap (alloc_map m s).2
           ∧ size (heap s') = size (heap s) + cells m)
  ∧ (∀ e s', result (loader_with call m s) = Threw e s' →
             trace (loader_with call m s) = [] →
             s' = (alloc_map m s).2).
Proof.
  intros _.
  assert (size (heap (alloc_map m s).2) = size (heap s) + cells m) as Hsize.
  { unfold alloc_map, cells. pose proof (alloc_props_size m ∅ s) as Hps.
    destruct (alloc_props m ∅ s) as [ps s1]. cbn [snd] in Hps.
    rewrite alloc_size. lia. }
  destruct (constructed_spec m s) as (_ & Hsub & Hwin & _).
  split; [done|]. split; [done|]. split; [done|]. split; [reflexivity|].
  split.
  - intros s' Hres Hwr.
    destruct (slot_cases s) as [Hf|[[f Hf]|[Ht Hnf]]].
    + destruct (deferred_path call m s Hf) as (_ & _ & _ & _ & Hres' & _ & Hh & _).
      rewrite Hres' in Hres. injection Hres as <-. by rewrite Hh.
    + destruct (immediate_path call m s f Hf) as (_ & _ & Hw0 & _). lia.
    + destruct (not_callable_path call m s Ht Hnf) as (_ & Hres').
      congruence.
  - intros e s' Hres Htr.
    destruct (slot_cases s) as [Hf|[[f Hf]|[Ht Hnf]]].
    + destruct (deferred_path call m s Hf) as (Htr' & _). congruence.
    + destruct (immediate_path call m s f Hf) as (Htr' & _). congruence.
    + destruct (not_callable_path call m s Ht Hnf) as (_ & Hres').
      congruence.
Qed.

(** The slots listed are the ones ToBoolean sends to false. *)
Lemma falsy_slots_spec (o : option value) :
  o ∈ falsy_slots ↔ to_boolean (default VUndefined o) = false.
Proof.
  unfold falsy_slots. rewrite !elem_of_cons, elem_of_nil.
  destruct o as [[| |[]|[|n|n]| | |[|n|n]|[|a x]|y|l| |f]|]; simpl;
    intuition (try discriminate; try congruence).
Qed.

(** X4: which path a load takes is decided by the slot alone. The pending
    slot is written exactly when [register_implementors] is absent or holds
    undefined, null, false, a zero (0, -0 or 0n), NaN, the empty string or
    [document.all], and the load then ends with the map object in
    [window.pending_implementors], the rest of [window] as it was; a call
    is made exactly when the slot holds a function, and the load then ends
    as that call ends; and the loader does neither exactly when the slot
    holds anything else, and the load then throws a TypeError, with
    [window] as it was. *)
Theorem X4_decision_table
    (call : fn_id → list value → state → outcome) (s : state) :
  let t := trace (loader call s) in
  let slot := window s !! "register_implementors" in
  let l := (alloc_map implementors s).1 in
  let s1 := (alloc_map implementors s).2 in
  (writes t = 1 ↔ slot ∈ falsy_slots)
  ∧ (calls t = 1 ↔ ∃ f, slot = Some (VFun f))
  ∧ (t = [] ↔ (slot ∉ falsy_slots) ∧ (∀ f, slot ≠ Some (VFun f)))
  ∧ (t = [] →
       ∃ v, slot = Some v
            ∧ result (loader call s) = Threw (TypeError_not_a_function v) s1)
  ∧ (slot ∈ falsy_slots →
       ∃ s', result (loader call s) = Returned VUndefined s'
             ∧ window s' !! "pending_implementors" = Some (VObj l)
             ∧ ∀ p, p ≠ "pending_implementors" →
                    window s' !! p = window s !! p)
  ∧ (∀ f, slot = Some (VFun f) →
          result (loader call s) = discard (call f [VObj l] s1))
  ∧ window s1 = window s.
Proof.
  unfold loader. generalize implementors. intros m. cbv zeta.
  rewrite !falsy_slots_spec. fold (get_global "register_implementors" s).
  assert (window (alloc_map m s).2 = window s) as Hwin.
  { by destruct (constructed_spec m s) as (_ & _ & ? & _). }
  assert (to_boolean (get_global "register_implementors" s) = false →
          ∃ s', result (loader_with call m s) = Returned VUndefined s'
                ∧ window s' !! "pending_implementors" = Some (VObj (alloc_map m s).1)
                ∧ ∀ p, p ≠ "pending_implementors" →
                       window s' !! p = window s !! p) as Hdef.
  { intros Hf.
    destruct (deferred_path call m s Hf) as (_ & _ & _ & _ & Hres & Hw & _).
    eexists. split; [exact Hres|]. rewrite Hw.
    split; [apply lookup_insert_eq|]. intros p Hp. by apply lookup_insert_ne. }
  assert (∀ f, window s !! "register_implementors" = Some (VFun f) →
            result (loader_with call m s)
            = discard (call f [VObj (alloc_map m s).1] (alloc_map m s).2)) as Hcall.
  { intros f Hf.
    by destruct (immediate_path call m s f Hf) as (_ & _ & _ & _ & _ & ? & _). }
  destruct (slot_cases s) as [Hf|[[f Hf]|[Ht Hnf]]].
  - destruct (deferred_path call m s Hf) as (Ht & Hc & Hw & _).
    rewrite Ht in *.
    split; [done|]. split; [|split; [|split; [done|split; [done|split; done]]]].
    + split; [done|]. intros [g Hg]. apply fun_get_global in Hg.
      unfold register_implementors in Hf. rewrite Hg in Hf. done.
    + split; [done|]. intros [Hnf _]. by destruct Hnf.
  - pose proof (fun_get_global _ _ _ Hf) as Hv.
    destruct (immediate_path call m s f Hf) as (Ht & Hc & Hw & _).
    unfold register_implementors in Hv. rewrite Ht, Hv in *.
    split; [done|]. split; [|split; [|split; [done|split; [done|split; done]]]].
    + split; [eauto | done].
    + split; [done|]. intros [_ Hnf]. by destruct (Hnf f).
  - destruct (not_callable_path call m s Ht Hnf) as (Htr & Hres).
    unfold register_implementors in *. rewrite Htr in *.
    split; [split; [done | congruence]|].
    split; [|split; [|split; [|split; [done|split; done]]]].
    + split; [done|]. intros [g Hg]. apply fun_get_global in Hg.
      by destruct (Hnf g).
    + split; [|done]. intros _. split; [congruence|].
      intros g Hg. apply fun_get_global in Hg. by destruct (Hnf g).
    + intros _. rewrite Hres. unfold get_global in *.
      destruct (window s !! "register_implementors") as [v|]; [eauto | done].
Qed.

(** X5: the loader never reads the pending slot. Putting any value in
    [pending_implementors] before a load changes nothing of what the loader
    does, and on the deferred path nothing of how the load ends: what was
    in the slot is replaced, not looked at. *)
Theorem X5_pending_slot_is_not_read
    (call : fn_id → list value → state → outcome) (s : state) (x : value) :
  let s0 := set_global "pending_implementors" x s in
  trace (loader call s0) = trace (loader call s)
  ∧ (alloc_map implementors s0).1 = (alloc_map implementors s).1
  ∧ (to_boolean (get_global "register_implementors" s) = false →
       result (loader call s0) = result (loader call s)).
Proof.
  unfold loader. generalize implementors. intros m. cbv zeta.
  change (set_global "pending_implementors" x s)
    with (with_window (<["pending_implementors" := x]> (window s)) s).
  set (w := <["pending_implementors" := x]> (window s)).
  assert (get_global register_implementors (with_window w s)
          = get_global register_implementors s) as Hslot.
  { unfold get_global, with_window, w. cbn [window].
    by rewrite lookup_insert_ne. }
  rewrite !loader_with_unfold, Hslot, alloc_map_with_window. cbn [fst snd].
  split; [|split; [done|]].
  - destruct (to_boolean _); [|done].
    by destruct (get_global register_implementors s).
  - intros Hf. unfold register_implementors in *. rewrite Hf. cbn [result].
    f_equal. unfold set_global, with_window, w. cbn [heap window]. f_equal.
    destruct (constructed_spec m s) as (_ & _ & -> & _).
    apply insert_insert_eq.
Qed.

(** X6: the page's functions matter to a load only through the one call:
    two runtimes that do the same when the function in the slot is called
    with the map object give the same load, and when the slot holds no
    function every runtime gives the same load. *)
Theorem X6_only_the_registrar_call_matters
    (call1 call2 : fn_id → list value → state → outcome) (s : state) :
  (∀ f, window s !! "register_implementors" = Some (VFun f) →
        call1 f [VObj (alloc_map implementors s).1] (alloc_map implementors s).2
        = call2 f [VObj (alloc_map implementors s).1] (alloc_map implementors s).2) →
  loader call1 s = loader call2 s.
Proof.
  unfold loader. generalize implementors. intros m Hsame.
  rewrite !loader_with_unfold.
  destruct (to_boolean _); [|done].
  destruct (get_global register_implementors s) eqn:Hv; try done.
  by rewrite (Hsame f (get_global_fun _ _ _ Hv)).
Qed.

Lemma X1_witness :
  ordinary_keys scenario_M2
  ∧ read_map (heap (alloc_map scenario_M2 s_empty).2)
      (VObj (alloc_map scenario_M2 s_empty).1)
    = Some (map_of scenario_M2).
Proof.
  split; [exact scenario_M2_ordinary|].
  exact (proj1 (X1_literal_reads_back scenario_M2 s_empty scenario_M2_ordinary)).
Defined.

Lemma X2_witness :
  ordinary_keys scenario_M2
  ∧ NoDup scenario_M2.*1
  ∧ ∃ d, read_map (heap (alloc_map scenario_M2 s_empty).2)
           (VObj (alloc_map scenario_M2 s_empty).1) = Some d
         ∧ d !! "libB" = Some [["entry3"]].
Proof.
  assert (NoDup scenario_M2.*1) as Hnd.
  { apply NoDup_cons_2; [|apply NoDup_singleton].
    by intros ?%list_elem_of_singleton. }
  split; [exact scenario_M2_ordinary|]. split; [exact Hnd|].
  apply (X2_listed_entries_are_found scenario_M2 s_empty "libB" [["entry3"]]
           scenario_M2_ordinary Hnd).
  apply list_elem_of_further, list_elem_of_here.
Defined.

Lemma X3_witness :
  ordinary_keys scenario_M2
  ∧ size (heap (alloc_map scenario_M2 s_empty).2)
    = size (heap s_empty) + cells scenario_M2.
Proof.
  split; [exact scenario_M2_ordinary|].
  exact (proj1 (X3_literal_takes_its_cells_only keeping_registrar scenario_M2
                  s_empty scenario_M2_ordinary)).
Defined.

Lemma X6_witness :
  (∀ f, window s_registrar !! "register_implementors" = Some (VFun f) →
        keeping_registrar f [VObj (alloc_map implementors s_registrar).1]
          (alloc_map implementors s_registrar).2
        = mixed_runtime f [VObj (alloc_map implementors s_registrar).1]
            (alloc_map implementors s_registrar).2)
  ∧ loader keeping_registrar s_registrar = loader mixed_runtime s_registrar.
Proof.
  assert (∀ f, window s_registrar !! "register_implementors" = Some (VFun f) →
            keeping_registrar f [VObj (alloc_map implementors s_registrar).1]
              (alloc_map implementors s_registrar).2
            = mixed_runtime f [VObj (alloc_map implementors s_registrar).1]
                (alloc_map implementors s_registrar).2) as Hsame.
  { intros f Hf. vm_compute in Hf. injection Hf as <-. reflexivity. }
  split; [exact Hsame|].
  exact (X6_only_the_registrar_call_matters keeping_registrar mixed_runtime
           s_registrar Hsame).
Defined.
